(** * First-order unification of LAB8/lab8.3.py

    A shallow embedding of [occurs_check], [unify_var], [unify],
    [unify_and_check], the dict comprehension of [display_result] and
    [parse_input], and the properties of the code stated against it.

    Python values that the unifier handles are strings, lists and (inside
    the substitution) tuples.  The substitution is one [dict] object that
    every recursive call mutates in place; it is threaded here as explicit
    state, each call giving back the state of that object together with what
    the call returned or raised. *)

From Stdlib Require Import Ascii String.
From stdpp Require Import base option list countable strings gmap fin_maps.

Local Open Scope string_scope.
Local Open Scope nat_scope.
Set Warnings "-register-all".

(** ** Terms *)

(** The Python values reaching the unifier: a [str], a [list] of values or a
    [tuple] of values.  Tuples only arise as stored bindings
    ([tuple(x)] in [unify_var]). *)
Inductive term : Type :=
  | Str (s : string)
  | List (xs : list term)
  | Tuple (xs : list term).

(** Python's [==] on these values: same type and equal contents; a list
    never equals a tuple, a string never equals a sequence. *)
Fixpoint py_eq (x y : term) {struct x} : bool :=
  let fix seq_eq (xs ys : list term) {struct xs} : bool :=
    match xs, ys with
    | [], [] => true
    | x' :: xs', y' :: ys' => py_eq x' y' && seq_eq xs' ys'
    | _, _ => false
    end in
  match x, y with
  | Str a, Str b => String.eqb a b
  | List xs, List ys => seq_eq xs ys
  | Tuple xs, Tuple ys => seq_eq xs ys
  | _, _ => false
  end.

(** Induction over terms that reaches inside the argument lists. *)
Lemma term_ind' (P : term → Prop) :
  (∀ s, P (Str s)) →
  (∀ xs, Forall P xs → P (List xs)) →
  (∀ xs, Forall P xs → P (Tuple xs)) →
  ∀ t, P t.
Proof.
  intros HS HL HT.
  fix IH 1. intros [s|xs|xs].
  - apply HS.
  - apply HL. induction xs as [|x xs IHxs]; constructor; [apply IH | exact IHxs].
  - apply HT. induction xs as [|x xs IHxs]; constructor; [apply IH | exact IHxs].
Qed.

Lemma py_eq_true_iff (x y : term) : py_eq x y = true ↔ x = y.
Proof.
  revert y. induction x as [a|xs IH|xs IH] using term_ind'; intros [b|ys|ys];
    simpl; try (split; [discriminate | congruence]).
  - rewrite String.eqb_eq. split; congruence.
  - revert ys. induction IH as [|x xs Hx _ IHxs]; intros [|y ys];
      try (split; [discriminate | congruence]); [done|].
    rewrite andb_true_iff, Hx. specialize (IHxs ys).
    split.
    + intros [-> H]. apply IHxs in H. congruence.
    + intros [= -> ->]. split; [done|]. by apply IHxs.
  - revert ys. induction IH as [|x xs Hx _ IHxs]; intros [|y ys];
      try (split; [discriminate | congruence]); [done|].
    rewrite andb_true_iff, Hx. specialize (IHxs ys).
    split.
    + intros [-> H]. apply IHxs in H. congruence.
    + intros [= -> ->]. split; [done|]. by apply IHxs.
Qed.

Lemma py_eq_refl (x : term) : py_eq x x = true.
Proof. by apply py_eq_true_iff. Qed.

Lemma py_eq_false_iff (x y : term) : py_eq x y = false ↔ x ≠ y.
Proof.
  rewrite <- not_true_iff_false, py_eq_true_iff. done.
Qed.

#[global] Instance term_eq_dec : EqDecision term.
Proof.
  refine (λ x y, cast_if (decide (py_eq x y = true)));
    abstract (by rewrite ?py_eq_true_iff in *).
Defined.

(** Terms are countable, so that they can key a [gmap] the way hashable
    values key a [dict]. *)
Fixpoint term_to_tree (t : term) : gen_tree string :=
  match t with
  | Str s => GenLeaf s
  | List xs => GenNode 0 (map term_to_tree xs)
  | Tuple xs => GenNode 1 (map term_to_tree xs)
  end.

Fixpoint tree_to_term (g : gen_tree string) : term :=
  match g with
  | GenLeaf s => Str s
  | GenNode 0 gs => List (map tree_to_term gs)
  | GenNode _ gs => Tuple (map tree_to_term gs)
  end.

Lemma tree_to_term_to_tree (t : term) : tree_to_term (term_to_tree t) = t.
Proof.
  induction t as [s|xs IH|xs IH] using term_ind'; simpl; [done|..];
    f_equal; rewrite map_map;
    (induction IH as [|x xs Hx _ IHxs]; simpl; [done | by rewrite Hx, IHxs]).
Qed.

#[global] Instance term_countable : Countable term :=
  inj_countable' term_to_tree tree_to_term tree_to_term_to_tree.

(** ** Python predicates on values *)

Definition is_ascii_lower (c : ascii) : bool :=
  let n := nat_of_ascii c in (97 <=? n)%nat && (n <=? 122)%nat.

Definition is_ascii_upper (c : ascii) : bool :=
  let n := nat_of_ascii c in (65 <=? n)%nat && (n <=? 90)%nat.

(** [str.islower()]: at least one cased character and no uppercase one.
    Strings are taken to be ASCII; other bytes count as uncased. *)
Definition islower (s : string) : bool :=
  let cs := list_ascii_of_string s in
  existsb is_ascii_lower cs && forallb (λ c, negb (is_ascii_upper c)) cs.

(** [isinstance(x, str) and x.islower()], the test by which [unify] takes a
    value for a variable. *)
Definition is_variable (x : term) : bool :=
  match x with
  | Str s => islower s
  | _ => false
  end.

(** Whether [hash(x)] is defined: strings are hashable, lists are not, a
    tuple is hashable when all its elements are. *)
Fixpoint hashable (x : term) : bool :=
  match x with
  | Str _ => true
  | List _ => false
  | Tuple xs => forallb hashable xs
  end.

(** ** The substitution *)

(** The [dict] that holds the bindings.  Keys are whatever hashable values
    were inserted; [unify_var] only inserts at variables. *)
Abbreviation store := (gmap term term).

(** What a call leaves behind: the value it returns, or the exception that
    leaves it.  [unify] returns either the [dict] object it was given
    (mutated in place) or the string ["FAILURE"]. *)
Inductive outcome : Type :=
  | Subst        (* [return subst] *)
  | FAILURE      (* [return "FAILURE"] *)
  | TypeError    (* unhashable type: 'list' *)
  | IndexError.  (* list index out of range *)

#[global] Instance outcome_eq_dec : EqDecision outcome.
Proof. solve_decision. Defined.

(** The result of running a call on the dict [subst]: [None] when the
    recursion is deeper than the fuel allows, otherwise the outcome and the
    content of the dict object when the call is left. *)
Abbreviation result := (option (outcome * store)).

(** ** The source functions *)

(** [occurs_check(var, x)]: [var == x], or [x] is a [list] one of whose
    elements contains [var].  Tuples are not lists and are not entered, and
    the substitution is not consulted. *)
Fixpoint occurs_check (var x : term) {struct x} : bool :=
  if py_eq var x then true
  else match x with
       | List xs => existsb (occurs_check var) xs
       | _ => false
       end.

(** [tuple(x) if isinstance(x, list) else x], the value stored for [x]. *)
Definition stored_form (x : term) : term :=
  match x with
  | List xs => Tuple xs
  | _ => x
  end.

(** [isinstance(x, (list, tuple))], giving the elements [tuple(x)] holds. *)
Definition as_sequence (x : term) : option (list term) :=
  match x with
  | List xs | Tuple xs => Some xs
  | Str _ => None
  end.

Section Unify.
(** The recursive calls to [unify], one level deeper. *)
Variable unify_rec : term → term → store → result.

(** [unify_var(var, x, subst)]. *)
Definition unify_var_with (var x : term) (subst : store) : result :=
  if negb (hashable var) then Some (TypeError, subst)      (* var in subst *)
  else match subst !! var with
  | Some bound => unify_rec bound x subst
  | None =>
    let bind :=
      if occurs_check var x then Some (FAILURE, subst)
      else Some (Subst, <[var := stored_form x]> subst) in
    match as_sequence x with
    | Some xs =>
      if negb (hashable (Tuple xs)) then Some (TypeError, subst)
      else match subst !! Tuple xs with                (* tuple(x) in subst *)
           | Some bound => unify_rec var bound subst
           | None => bind
           end
    | None => bind
    end
  end.

(** The loop [for xi, yi in zip(x[1:], y[1:])]: each pair is unified in
    the dict left by the previous one; the first ["FAILURE"] (or
    exception) ends the loop. *)
Fixpoint unify_args (pairs : list (term * term)) (subst : store) : result :=
  match pairs with
  | [] => Some (Subst, subst)
  | (xi, yi) :: pairs' =>
    match unify_rec xi yi subst with
    | Some (Subst, subst') => unify_args pairs' subst'
    | other => other
    end
  end.

(** The body of [unify(x, y, subst)]. *)
Definition unify_body (x y : term) (subst : store) : result :=
  if py_eq x y then Some (Subst, subst)
  else if is_variable x then unify_var_with x y subst
  else if is_variable y then unify_var_with y x subst
  else match x, y with
  | List xs, List ys =>
    if negb (length xs =? length ys)%nat then Some (FAILURE, subst)
    else match xs, ys with
    | x0 :: xs', y0 :: ys' =>
      if negb (py_eq x0 y0) then Some (FAILURE, subst)
      else unify_args (zip xs' ys') subst
    | _, _ => Some (IndexError, subst)                   (* x[0], y[0] *)
    end
  | _, _ => Some (FAILURE, subst)
  end.
End Unify.

(** [unify(x, y, subst)], with [fuel] bounding the depth of nested calls. *)
Fixpoint unify (fuel : nat) (x y : term) (subst : store) : result :=
  match fuel with
  | O => None
  | S fuel' => unify_body (unify fuel') x y subst
  end.

(** [unify_var(var, x, subst)] whose calls to [unify] have [fuel] left. *)
Definition unify_var (fuel : nat) (var x : term) (subst : store) : result :=
  unify_var_with (unify fuel) var x subst.

(** [unify_and_check(expr1, expr2)]: [unify] on a fresh dict, turned into
    the pair [(is_unified, substitutions)]. *)
Definition unify_and_check (fuel : nat) (expr1 expr2 : term)
    : option (outcome + bool * option store) :=
  match unify fuel expr1 expr2 ∅ with
  | None => None
  | Some (Subst, subst) => Some (inr (true, Some subst))
  | Some (FAILURE, _) => Some (inr (false, None))
  | Some (exn, _) => Some (inl exn)
  end.

(** ** Notions the specification adds to the code *)

(** Modelled from the spec: [resolve_chain(term, store)], which the source
    does not define.  A bound variable is followed through its bindings
    until an unbound variable or a value that is not a variable is reached.
    [fuel] bounds the number of links followed. *)
Fixpoint resolve_chain (fuel : nat) (subst : store) (t : term) : option term :=
  match fuel with
  | O => None
  | S fuel' =>
    if is_variable t then
      match subst !! t with
      | Some bound => resolve_chain fuel' subst bound
      | None => Some t
      end
    else Some t
  end.

(** Modelled from the spec: the occurs-check of the specification, which
    descends into compound arguments and follows the bindings already in
    the store.  [occurs_resolved subst v t]: [v] appears in [t] once [t] is
    fully resolved through [subst]. *)
Inductive occurs_resolved (subst : store) (v : term) : term → Prop :=
  | occurs_here : occurs_resolved subst v v
  | occurs_in_list xs xi :
      xi ∈ xs → occurs_resolved subst v xi → occurs_resolved subst v (List xs)
  | occurs_in_tuple xs xi :
      xi ∈ xs → occurs_resolved subst v xi → occurs_resolved subst v (Tuple xs)
  | occurs_through k bound :
      subst !! k = Some bound → occurs_resolved subst v bound →
      occurs_resolved subst v k.

(** No entry binds a variable to a term that, resolved, contains it. *)
Definition acyclic (subst : store) : Prop :=
  ∀ v bound, subst !! v = Some bound → ¬ occurs_resolved subst v bound.

(** The stores the engine produces: the empty dict, and the dict as any
    [unify] call on such a store leaves it. *)
Inductive reachable : store → Prop :=
  | reachable_empty : reachable ∅
  | reachable_unify fuel x y subst o subst' :
      reachable subst → unify fuel x y subst = Some (o, subst') →
      reachable subst'.

(** Modelled from the spec: the two failure kinds of the specification's
    error design; the source has the single value ["FAILURE"]. *)
Inductive failure_kind : Type :=
  | OccursCheckFailure
  | StructuralMismatch.

(** [unify x y {}] returns a substitution. *)
Definition succeeds (x y : term) : Prop :=
  ∃ fuel subst, unify fuel x y ∅ = Some (Subst, subst).

(** Two values that [unify], once neither is a variable, rejects without
    entering the argument loop: they are not both lists, or they are lists
    of different lengths or with different first elements. *)
Definition mismatch (x y : term) : Prop :=
  match x, y with
  | List xs, List ys => length xs ≠ length ys ∨ head xs ≠ head ys
  | _, _ => True
  end.

(** ** Shapes of terms and stores *)

(** [v] is [x], or an element, at any depth, of the lists of [x]: the
    occurrences that [occurs_check] looks for. *)
Inductive occurs_in_lists (v : term) : term → Prop :=
  | occurs_at_root : occurs_in_lists v v
  | occurs_at_element xs xi :
      xi ∈ xs → occurs_in_lists v xi → occurs_in_lists v (List xs).

(** A dict all of whose keys are variables and all of whose values are
    hashable (so that no value is a list). *)
Definition store_ok (s : store) : Prop :=
  ∀ k v, s !! k = Some v → is_variable k = true ∧ hashable v = true.

(** No key of the dict is bound to itself. *)
Definition no_self_binding (s : store) : Prop :=
  ∀ k, s !! k ≠ Some k.

(** No lowercase string at a place [unify] looks at: in the value itself
    or, at any depth, in the elements of its lists.  [unify] does not look
    inside tuples. *)
Fixpoint ground (t : term) : bool :=
  match t with
  | Str s => negb (islower s)
  | List xs => forallb ground xs
  | Tuple _ => true
  end.

(** The nesting depth of the lists of a value. *)
Fixpoint height (t : term) : nat :=
  match t with
  | List xs => S (foldr (λ x h, height x `max` h) 0 xs)
  | _ => 1
  end.

(** A string, or a sequence of hashable elements: for the terms the driver
    builds, a string or a list of strings. *)
Definition flat (t : term) : bool := hashable (stored_form t).

(** ** [display_result] *)

(** [list(v) if isinstance(v, tuple) else v], how [display_result] shows a
    bound value. *)
Definition shown_value (v : term) : term :=
  match v with
  | Tuple xs => List xs
  | _ => v
  end.

(** The dict [display_result] prints after ["Substitutions:"],
    [{k: list(v) if isinstance(v, tuple) else v for k, v in subst.items()}]. *)
Definition shown_substitutions (subst : store) : store :=
  shown_value <$> subst.

(** ** [parse_input] *)

(** The class [[a-zA-Z0-9_]] of the regular expression. *)
Definition is_word_char (c : ascii) : bool :=
  let n := nat_of_ascii c in
  is_ascii_lower c || is_ascii_upper c || ((48 <=? n) && (n <=? 57))
  || (n =? 95).

(** [str.isspace()] on one ASCII character: tab to carriage return, the
    separators 28 to 31 and the space. *)
Definition py_isspace (c : ascii) : bool :=
  let n := nat_of_ascii c in
  ((9 <=? n) && (n <=? 13)) || ((28 <=? n) && (n <=? 32)).

(** Group 1 of the [re.match] in [parse_term], whose pattern is a non-empty
    greedy run of word characters followed by a greedy run of any characters
    but newline: the longest run of word characters the string starts with.
    The match fails exactly when this run is empty. *)
Fixpoint word_prefix (cs : list ascii) : list ascii :=
  match cs with
  | c :: cs' => if is_word_char c then c :: word_prefix cs' else []
  | [] => []
  end.

(** Group 2, the run of any characters but newline: everything up to the
    first newline. *)
Fixpoint until_newline (cs : list ascii) : list ascii :=
  match cs with
  | c :: cs' => if (nat_of_ascii c =? 10) then [] else c :: until_newline cs'
  | [] => []
  end.

(** [s.split(',')]: the pieces between the commas, one more than there are
    commas. *)
Fixpoint split_comma (cs : list ascii) : list (list ascii) :=
  match cs with
  | [] => [[]]
  | c :: cs' =>
    if (nat_of_ascii c =? 44) then [] :: split_comma cs'
    else match split_comma cs' with
         | piece :: pieces => (c :: piece) :: pieces
         | [] => [[c]]
         end
  end.

Fixpoint lstrip (cs : list ascii) : list ascii :=
  match cs with
  | c :: cs' => if py_isspace c then lstrip cs' else cs
  | [] => []
  end.

(** [s.strip()]. *)
Definition strip (cs : list ascii) : list ascii :=
  reverse (lstrip (reverse (lstrip cs))).

(** ['(' in term]. *)
Definition has_paren (cs : list ascii) : bool :=
  existsb (λ c, nat_of_ascii c =? 40) cs.

(** The inner function [parse_term(term)], on the characters [text] of its
    argument.  [fuel] bounds the depth of the recursion; every recursive call is on a
    strictly shorter string. *)
Fixpoint parse_term (fuel : nat) (text : list ascii) : option term :=
  match fuel with
  | O => None
  | S fuel' =>
    if has_paren text then
      match word_prefix text with
      | [] => Some (Str (string_of_list_ascii text))        (* no match *)
      | predicate =>
        let arguments_str := until_newline (drop (length predicate) text) in
        arguments ← mapM (λ arg, parse_term fuel' (strip arg))
                         (split_comma arguments_str);
        Some (List (Str (string_of_list_ascii predicate) :: arguments))
      end
    else Some (Str (string_of_list_ascii text))
  end.

(** [input_str.replace(" ", "")]. *)
Definition remove_spaces (cs : list ascii) : list ascii :=
  filter (λ c, nat_of_ascii c ≠ 32) cs.

(** [parse_input(input_str)].  Strings are taken to be ASCII. *)
Definition parse_input (input_str : string) : option term :=
  let cs := remove_spaces (list_ascii_of_string input_str) in
  parse_term (S (length cs)) cs.

(** The pieces joined by commas, [','.join(pieces)]. *)
Fixpoint join_comma (pieces : list (list ascii)) : list ascii :=
  match pieces with
  | [] => []
  | [piece] => piece
  | piece :: pieces' => piece ++ "," %char :: join_comma pieces'
  end.

(** The text of a parsed term: a string stands for itself, a list for its
    first element followed by the texts of the others joined by commas. *)
Fixpoint unparse (t : term) : list ascii :=
  match t with
  | Str s => list_ascii_of_string s
  | List (p :: args) => unparse p ++ join_comma (map unparse args)
  | _ => []
  end.

(** No character of the string is whitespace. *)
Definition no_whitespace (cs : list ascii) : Prop :=
  Forall (λ c, py_isspace c = false) cs.

(** What [parse_term] builds: a string, or a list that starts with a
    non-empty string of word characters and has at least one more element,
    each built the same way. *)
Inductive parse_tree : term → Prop :=
  | parse_tree_leaf a : parse_tree (Str a)
  | parse_tree_node p args :
      p ≠ [] → forallb is_word_char p = true →
      args ≠ [] → Forall parse_tree args →
      parse_tree (List (Str (string_of_list_ascii p) :: args)).

(** ** Inputs studied below *)

(** [{x: y, y: x}], the dict left by unifying [p(x, y)] with [p(y, x)]. *)
Definition cyclic_store : store :=
  <[Str "y" := Str "x"]> (<[Str "x" := Str "y"]> ∅).

(** [p(x, y, x)] and [p(y, x, A)]. *)
Definition looping_lhs : term := List [Str "p"; Str "x"; Str "y"; Str "x"].
Definition looping_rhs : term := List [Str "p"; Str "y"; Str "x"; Str "A"].

(** ** General facts about the embedding *)

Lemma unify_S (fuel : nat) (x y : term) (subst : store) :
  unify (S fuel) x y subst = unify_body (unify fuel) x y subst.
Proof. reflexivity. Qed.

(** *** More fuel does not change a result *)

Section FuelMono.
Variables f g : term → term → store → result.
Hypothesis f_g : ∀ x y s r, f x y s = Some r → g x y s = Some r.

Lemma unify_var_with_mono var x s r :
  unify_var_with f var x s = Some r → unify_var_with g var x s = Some r.
Proof using f_g.
  unfold unify_var_with.
  destruct (negb (hashable var)); [done|].
  destruct (s !! var); [by apply f_g|].
  destruct (as_sequence x) as [xs|]; [|done].
  destruct (negb (hashable (Tuple xs))); [done|].
  destruct (s !! Tuple xs); [by apply f_g | done].
Qed.

Lemma unify_args_mono pairs s r :
  unify_args f pairs s = Some r → unify_args g pairs s = Some r.
Proof using f_g.
  revert s. induction pairs as [|[xi yi] pairs IH]; intros s; simpl; [done|].
  destruct (f xi yi s) as [[o s']|] eqn:E; [|done].
  rewrite (f_g _ _ _ _ E).
  destruct o; auto.
Qed.

Lemma unify_body_mono x y s r :
  unify_body f x y s = Some r → unify_body g x y s = Some r.
Proof using f_g.
  unfold unify_body.
  destruct (py_eq x y); [done|].
  destruct (is_variable x); [apply unify_var_with_mono|].
  destruct (is_variable y); [apply unify_var_with_mono|].
  destruct x as [|xs|], y as [|ys|]; try done.
  destruct (negb (length xs =? length ys)%nat); [done|].
  destruct xs as [|x0 xs], ys as [|y0 ys]; try done.
  destruct (negb (py_eq x0 y0)); [done|].
  apply unify_args_mono.
Qed.
End FuelMono.

Lemma unify_fuel_mono (n m : nat) (x y : term) (s : store) (r : outcome * store) :
  n ≤ m → unify n x y s = Some r → unify m x y s = Some r.
Proof.
  revert m x y s r. induction n as [|n IH]; intros m x y s r Hle; [done|].
  destruct m as [|m]; [lia|].
  rewrite !unify_S. apply unify_body_mono.
  intros x' y' s' r'. apply IH. lia.
Qed.

(** A call has at most one result, whatever fuel finds it. *)
Lemma unify_deterministic (n m : nat) (x y : term) (s : store)
    (r r' : outcome * store) :
  unify n x y s = Some r → unify m x y s = Some r' → r = r'.
Proof.
  intros Hn Hm.
  apply (unify_fuel_mono n (n `max` m)) in Hn; [|lia].
  apply (unify_fuel_mono m (n `max` m)) in Hm; [|lia].
  congruence.
Qed.

(** *** The dict only grows *)

Section Grows.
Variable f : term → term → store → result.
Hypothesis f_grows : ∀ x y s o s', f x y s = Some (o, s') → s ⊆ s'.

Lemma unify_var_with_grows var x s o s' :
  unify_var_with f var x s = Some (o, s') → s ⊆ s'.
Proof using f_grows.
  unfold unify_var_with.
  destruct (negb (hashable var)); [by intros [= _ <-]|].
  destruct (s !! var) eqn:Hvar; [by apply f_grows|].
  assert (Hbind : (if occurs_check var x then Some (FAILURE, s)
                   else Some (Subst, <[var:=stored_form x]> s)) = Some (o, s')
                  → s ⊆ s').
  { destruct (occurs_check var x); intros [= _ <-]; [done|].
    by apply insert_subseteq. }
  destruct (as_sequence x) as [xs|]; [|done].
  destruct (negb (hashable (Tuple xs))); [by intros [= _ <-]|].
  destruct (s !! Tuple xs); [by apply f_grows | done].
Qed.

Lemma unify_args_grows pairs s o s' :
  unify_args f pairs s = Some (o, s') → s ⊆ s'.
Proof using f_grows.
  revert s. induction pairs as [|[xi yi] pairs IH]; intros s; simpl.
  { by intros [= _ <-]. }
  destruct (f xi yi s) as [[o1 s1]|] eqn:E; [|done].
  apply f_grows in E.
  destruct o1; try (intros [= _ <-]; done).
  intros H. apply IH in H. by transitivity s1.
Qed.

Lemma unify_body_grows x y s o s' :
  unify_body f x y s = Some (o, s') → s ⊆ s'.
Proof using f_grows.
  unfold unify_body.
  destruct (py_eq x y); [by intros [= _ <-]|].
  destruct (is_variable x); [apply unify_var_with_grows|].
  destruct (is_variable y); [apply unify_var_with_grows|].
  destruct x as [|xs|], y as [|ys|]; try (by intros [= _ <-]).
  destruct (negb (length xs =? length ys)%nat); [by intros [= _ <-]|].
  destruct xs as [|x0 xs], ys as [|y0 ys]; try (by intros [= _ <-]).
  destruct (negb (py_eq x0 y0)); [by intros [= _ <-]|].
  apply unify_args_grows.
Qed.
End Grows.

Lemma unify_grows (fuel : nat) (x y : term) (s s' : store) (o : outcome) :
  unify fuel x y s = Some (o, s') → s ⊆ s'.
Proof.
  revert x y s s' o. induction fuel as [|n IH]; intros x y s s' o; [done|].
  rewrite unify_S. apply unify_body_grows. intros ?????. by eapply IH.
Qed.

(** *** [x[0]] and [y[0]] are always there *)

Section NoIndexError.
Variable f : term → term → store → result.
Hypothesis f_ok : ∀ x y s s', f x y s ≠ Some (IndexError, s').

Lemma unify_var_with_no_IndexError var x s s' :
  unify_var_with f var x s ≠ Some (IndexError, s').
Proof using f_ok.
  unfold unify_var_with.
  destruct (negb (hashable var)); [done|].
  destruct (s !! var); [apply f_ok|].
  destruct (occurs_check var x);
    (destruct (as_sequence x) as [xs|]; [|done]);
    (destruct (negb (hashable (Tuple xs))); [done|]);
    (destruct (s !! Tuple xs); [apply f_ok | done]).
Qed.

Lemma unify_args_no_IndexError pairs s s' :
  unify_args f pairs s ≠ Some (IndexError, s').
Proof using f_ok.
  revert s. induction pairs as [|[xi yi] pairs IH]; intros s; simpl; [done|].
  destruct (f xi yi s) as [[o s1]|] eqn:E; [|done].
  destruct o; try done.
  by apply f_ok in E.
Qed.

Lemma unify_body_no_IndexError x y s s' :
  unify_body f x y s ≠ Some (IndexError, s').
Proof using f_ok.
  unfold unify_body.
  destruct (py_eq x y) eqn:Heq; [done|].
  destruct (is_variable x); [apply unify_var_with_no_IndexError|].
  destruct (is_variable y); [apply unify_var_with_no_IndexError|].
  destruct x as [|xs|], y as [|ys|]; try done.
  destruct xs as [|x0 xs], ys as [|y0 ys]; try done.
  simpl length. destruct (negb (S (length xs) =? S (length ys))); [done|].
  destruct (negb (py_eq x0 y0)); [done|].
  apply unify_args_no_IndexError.
Qed.
End NoIndexError.

(** Two lists of equal length that are not equal are not empty, so the
    subscripts [x[0]] and [y[0]] never raise. *)
Lemma unify_no_IndexError (fuel : nat) (x y : term) (s s' : store) :
  unify fuel x y s ≠ Some (IndexError, s').
Proof.
  revert x y s s'. induction fuel as [|n IH]; intros x y s s'; [done|].
  rewrite unify_S. by apply unify_body_no_IndexError.
Qed.

(** ** Where [unify] fails *)

(** A variable against a list that contains it: the occurs-check branch of
    [unify_var]. *)
Lemma unify_occurs_failure (fuel : nat) (var : term) (xs : list term) (s : store) :
  is_variable var = true →
  s !! var = None →
  hashable (Tuple xs) = true →
  s !! Tuple xs = None →
  occurs_check var (List xs) = true →
  unify (S fuel) var (List xs) s = Some (FAILURE, s).
Proof.
  intros Hvar Hfree Hhash Hkey Hocc.
  rewrite unify_S. unfold unify_body.
  destruct var as [v| |]; try done.
  simpl py_eq. rewrite Hvar.
  unfold unify_var_with, as_sequence.
  change (hashable (Str v)) with true.
  by rewrite Hfree, Hhash, Hkey, Hocc.
Qed.

Lemma unify_mismatch_failure (fuel : nat) (x y : term) (s : store) :
  is_variable x = false →
  is_variable y = false →
  x ≠ y →
  mismatch x y →
  unify (S fuel) x y s = Some (FAILURE, s).
Proof.
  intros Hx Hy Hne Hmis.
  rewrite unify_S. unfold unify_body.
  apply py_eq_false_iff in Hne. rewrite Hne, Hx, Hy.
  destruct x as [|xs|], y as [|ys|]; try done.
  simpl in Hmis.
  destruct (length xs =? length ys) eqn:Hlen; [|done].
  apply Nat.eqb_eq in Hlen. simpl negb.
  destruct Hmis as [Hmis|Hmis]; [done|].
  destruct xs as [|x0 xs], ys as [|y0 ys]; try done.
  simpl in Hmis.
  assert (x0 ≠ y0) as Hne0 by congruence.
  apply py_eq_false_iff in Hne0. by rewrite Hne0.
Qed.

Lemma unify_and_check_failure (fuel : nat) (x y : term) (s : store) :
  unify fuel x y ∅ = Some (FAILURE, s) →
  unify_and_check fuel x y = Some (inr (false, None)).
Proof. unfold unify_and_check. by intros ->. Qed.

(** ** Termination and the cyclic store (C1, C2) *)

Module Cycle.
Lemma bind_x f : unify_body f (Str "x") (Str "y") ∅ = Some (Subst, <[Str "x" := Str "y"]> ∅).
Proof. vm_compute. reflexivity. Qed.

Lemma bind_y f : unify_body f (Str "y") (Str "x") (<[Str "x" := Str "y"]> ∅) = Some (Subst, cyclic_store).
Proof. vm_compute. reflexivity. Qed.

Lemma step_x f : unify_body f (Str "x") (Str "A") cyclic_store = f (Str "y") (Str "A") cyclic_store.
Proof. vm_compute. reflexivity. Qed.

Lemma step_y f : unify_body f (Str "y") (Str "A") cyclic_store = f (Str "x") (Str "A") cyclic_store.
Proof. vm_compute. reflexivity. Qed.

Lemma enter_args f :
  unify_body f looping_lhs looping_rhs ∅
  = unify_args f [(Str "x", Str "y"); (Str "y", Str "x"); (Str "x", Str "A")] ∅.
Proof. vm_compute. reflexivity. Qed.

(** On the cyclic dict, [unify("x", "A")] calls [unify("y", "A")], which
    calls [unify("x", "A")] again: no depth of recursion reaches a result. *)
Lemma chase_forever (fuel : nat) :
  unify fuel (Str "x") (Str "A") cyclic_store = None ∧
  unify fuel (Str "y") (Str "A") cyclic_store = None.
Proof.
  induction fuel as [|n [IHx IHy]]; [done|].
  rewrite !unify_S, step_x, step_y. done.
Qed.
End Cycle.

(** C1 (fails on the code): [unify(["p","x","y","x"], ["p","y","x","A"], {})]
    on two finite terms never returns.  The first two argument pairs leave
    the dict [{x: y, y: x}], and the third pair then recurses without end,
    whatever depth is allowed. *)
Theorem unify_diverges_on_finite_terms :
  ∀ fuel, unify fuel looping_lhs looping_rhs ∅ = None.
Proof.
  intros [|[|n]]; [done|done|].
  rewrite unify_S, Cycle.enter_args. cbn [unify_args].
  rewrite unify_S, Cycle.bind_x, unify_S, Cycle.bind_y.
  by rewrite (proj1 (Cycle.chase_forever _)).
Qed.

(** C2 (fails on the code): unifying [p(x, y)] with [p(y, x)] from the empty
    dict succeeds and leaves [{x: y, y: x}], a reachable store in which [x] is
    bound to [y] although [y], resolved through the store, is [x] again. *)
Theorem occurs_check_admits_cycle :
  unify 2 (List [Str "p"; Str "x"; Str "y"]) (List [Str "p"; Str "y"; Str "x"]) ∅
    = Some (Subst, cyclic_store) ∧
  reachable cyclic_store ∧
  cyclic_store !! Str "x" = Some (Str "y") ∧
  occurs_resolved cyclic_store (Str "x") (Str "y") ∧
  ¬ acyclic cyclic_store.
Proof.
  assert (Hrun : unify 2 (List [Str "p"; Str "x"; Str "y"])
                   (List [Str "p"; Str "y"; Str "x"]) ∅ = Some (Subst, cyclic_store))
    by (vm_compute; reflexivity).
  assert (Hx : cyclic_store !! Str "x" = Some (Str "y")) by (vm_compute; reflexivity).
  assert (Hy : cyclic_store !! Str "y" = Some (Str "x")) by (vm_compute; reflexivity).
  assert (Hocc : occurs_resolved cyclic_store (Str "x") (Str "y")).
  { eapply occurs_through; [exact Hy|]. apply occurs_here. }
  split_and!; try done.
  - eapply reachable_unify; [apply reachable_empty | exact Hrun].
  - intros Hacyc. exact (Hacyc _ _ Hx Hocc).
Qed.

(** ** Argument order (C3) *)

(** C3 (fails on the code): [unify(["p","u","u"], ["p","v",["f","v"]], {})]
    returns ["FAILURE"] (the occurs-check sees [v] in [f(v)]), while the same
    two terms in the other order unify: the dict then holds [v: u] and
    [occurs_check("u", ["f","v"])] does not look [v] up. *)
Theorem unify_outcome_depends_on_order :
  let x := List [Str "p"; Str "u"; Str "u"] in
  let y := List [Str "p"; Str "v"; List [Str "f"; Str "v"]] in
  unify 3 x y ∅ = Some (FAILURE, <[Str "u" := Str "v"]> ∅) ∧
  unify 3 y x ∅
    = Some (Subst, <[Str "u" := Tuple [Str "f"; Str "v"]]> (<[Str "v" := Str "u"]> ∅)) ∧
  ¬ (succeeds x y ↔ succeeds y x).
Proof.
  intros x y.
  assert (Hxy : unify 3 x y ∅ = Some (FAILURE, <[Str "u" := Str "v"]> ∅))
    by (vm_compute; reflexivity).
  assert (Hyx : unify 3 y x ∅ = Some (Subst,
            <[Str "u" := Tuple [Str "f"; Str "v"]]> (<[Str "v" := Str "u"]> ∅)))
    by (vm_compute; reflexivity).
  split_and!; [done|done|].
  intros [_ Hback].
  destruct Hback as (fuel & s & Hs); [by eexists 3, _|].
  by pose proof (unify_deterministic _ _ _ _ _ _ _ Hxy Hs).
Qed.

(** ** Failure outcomes (C4, C5, C8) *)




(** C5 (as stated, fails): [unify("a", "b", {})] does not fail.  Both strings
    are lowercase, hence variables, and the call returns [{a: b}]. *)
Lemma unify_a_b_succeeds :
  unify 1 (Str "a") (Str "b") ∅ = Some (Subst, <[Str "a" := Str "b"]> ∅) ∧
  unify_and_check 1 (Str "a") (Str "b")
    = Some (inr (true, Some (<[Str "a" := Str "b"]> ∅))) ∧
  ∀ fuel s, unify fuel (Str "a") (Str "b") ∅ ≠ Some (FAILURE, s).
Proof.
  assert (H : unify 1 (Str "a") (Str "b") ∅ = Some (Subst, <[Str "a" := Str "b"]> ∅))
    by (vm_compute; reflexivity).
  split_and!; [done|by vm_compute|].
  intros fuel s Hf.
  by pose proof (unify_deterministic _ _ _ _ _ _ _ H Hf).
Qed.

(** C5 (amended): [unify("a", "a", {})] returns the empty dict unchanged;
    [unify("a", "b", {})] binds [a] to [b], a lowercase string being a
    variable; two distinct strings neither of which is lowercase, such as
    ["A"] and ["B"], make [unify] return ["FAILURE"]. *)
Theorem unify_strings (fuel : nat) (a b : string) (s : store) :
  islower a = false →
  islower b = false →
  a ≠ b →
  unify (S fuel) (Str "a") (Str "a") ∅ = Some (Subst, ∅) ∧
  unify (S fuel) (Str "a") (Str "b") ∅ = Some (Subst, <[Str "a" := Str "b"]> ∅) ∧
  unify (S fuel) (Str a) (Str b) s = Some (FAILURE, s).
Proof.
  intros Ha Hb Hne.
  split_and!; [by vm_compute|by vm_compute|].
  apply unify_mismatch_failure; [done|done|congruence|exact I].
Qed.

Lemma unify_strings_witness :
  unify 1 (Str "a") (Str "a") ∅ = Some (Subst, ∅) ∧
  unify 1 (Str "a") (Str "b") ∅ = Some (Subst, <[Str "a" := Str "b"]> ∅) ∧
  unify 1 (Str "A") (Str "B") ∅ = Some (FAILURE, ∅).
Proof.
  apply (unify_strings 0 "A" "B" ∅); [reflexivity|reflexivity|discriminate].
Defined.

(** C8 (as stated, fails): what [unify("x", ["f","x"], {})] gives back names
    no failure kind; it is the value a structural mismatch such as
    [unify("A", "B", {})] gives back too. *)
Lemma occurs_failure_carries_no_kind :
  ¬ ∃ kind_of : result → failure_kind,
      kind_of (unify 1 (Str "x") (List [Str "f"; Str "x"]) ∅) = OccursCheckFailure ∧
      kind_of (unify 1 (Str "A") (Str "B") ∅) = StructuralMismatch.
Proof.
  intros (kind_of & Hocc & Hmis).
  assert (unify 1 (Str "x") (List [Str "f"; Str "x"]) ∅
          = unify 1 (Str "A") (Str "B") ∅) as Heq by (vm_compute; reflexivity).
  rewrite Heq in Hocc. congruence.
Qed.

(** C8 (amended): [unify("x", ["f","x"], {})] fails.  ["x"] is a variable,
    unbound, [occurs_check("x", ["f","x"])] is [True], and the call returns
    ["FAILURE"], the only failure value there is, leaving the dict empty;
    [unify_and_check] reports [(False, None)]. *)
Theorem unify_var_in_own_compound (fuel : nat) :
  is_variable (Str "x") = true ∧
  occurs_check (Str "x") (List [Str "f"; Str "x"]) = true ∧
  unify (S fuel) (Str "x") (List [Str "f"; Str "x"]) ∅ = Some (FAILURE, ∅) ∧
  unify_and_check (S fuel) (Str "x") (List [Str "f"; Str "x"])
    = Some (inr (false, None)).
Proof.
  assert (H : unify (S fuel) (Str "x") (List [Str "f"; Str "x"]) ∅ = Some (FAILURE, ∅)).
  { by apply unify_occurs_failure. }
  split_and!; [done|done|done|].
  by eapply unify_and_check_failure.
Qed.

(** ** Bindings that are made (C6, C7) *)

(** C6: [unify("x", "y", {})] returns [{x: y}]; [unify("y", "a", store)] on
    that dict returns [{x: y, y: a}]; and following ["x"] through the final
    dict ends at ["a"], with any fuel that allows the three lookups. *)
Theorem chained_binding_resolves (fuel : nat) :
  let s1 : store := <[Str "x" := Str "y"]> ∅ in
  let s2 : store := <[Str "y" := Str "a"]> s1 in
  unify (S fuel) (Str "x") (Str "y") ∅ = Some (Subst, s1) ∧
  unify (S fuel) (Str "y") (Str "a") s1 = Some (Subst, s2) ∧
  resolve_chain (3 + fuel) s2 (Str "x") = Some (Str "a").
Proof. split_and!; vm_compute; reflexivity. Qed.

(** C7: [unify(["p","x",["f","y"]], ["p","a",["f","z"]], {})] returns the
    dict whose entries are exactly [x: a] and [y: z]. *)
Theorem unify_compound_bindings (fuel : nat) :
  let s : store := <[Str "y" := Str "z"]> (<[Str "x" := Str "a"]> ∅) in
  unify (3 + fuel) (List [Str "p"; Str "x"; List [Str "f"; Str "y"]])
                   (List [Str "p"; Str "a"; List [Str "f"; Str "z"]]) ∅
    = Some (Subst, s) ∧
  map_to_list s ≡ₚ [(Str "x", Str "a"); (Str "y", Str "z")] ∧
  unify_and_check (3 + fuel) (List [Str "p"; Str "x"; List [Str "f"; Str "y"]])
                             (List [Str "p"; Str "a"; List [Str "f"; Str "z"]])
    = Some (inr (true, Some s)).
Proof.
  split_and!; [vm_compute; reflexivity | | vm_compute; reflexivity].
  rewrite map_to_list_insert by (vm_compute; reflexivity).
  rewrite map_to_list_insert by (vm_compute; reflexivity).
  rewrite map_to_list_empty. apply Permutation_swap.
Qed.

(** ** Bindings are kept (C9) *)

(** C9: whatever a [unify] call does, the dict it leaves contains every
    binding of the dict it was given, with the same value: a present key is
    never assigned again.  In particular this holds of the store returned on
    success. *)
Theorem unify_never_rebinds (fuel : nat) (x y : term) (s s' : store)
    (o : outcome) (k v : term) :
  unify fuel x y s = Some (o, s') →
  s !! k = Some v →
  s ⊆ s' ∧ s' !! k = Some v.
Proof.
  intros Hrun Hk.
  apply unify_grows in Hrun.
  split; [done|].
  by eapply lookup_weaken.
Qed.

Lemma unify_never_rebinds_witness :
  (<[Str "x" := Str "y"]> ∅ : store)
    ⊆ <[Str "y" := Str "a"]> (<[Str "x" := Str "y"]> ∅) ∧
  (<[Str "y" := Str "a"]> (<[Str "x" := Str "y"]> ∅) : store) !! Str "x"
    = Some (Str "y").
Proof.
  apply (unify_never_rebinds 2 (Str "y") (Str "a") (<[Str "x" := Str "y"]> ∅) _
           Subst (Str "x") (Str "y")); vm_compute; reflexivity.
Defined.

(** ** Compound bindings are stored as tuples (C10) *)

(** When every element of the list is hashable the binding is stored as
    the tuple of the list, and unifying the same two values again on that
    dict compares the stored tuple with the list and returns ["FAILURE"]. *)
Lemma unify_var_list_twice (fuel : nat) (v : string) (xs : list term) :
  islower v = true →
  forallb hashable xs = true →
  occurs_check (Str v) (List xs) = false →
  let s : store := <[Str v := Tuple xs]> ∅ in
  unify (S fuel) (Str v) (List xs) ∅ = Some (Subst, s) ∧
  unify (S (S fuel)) (Str v) (List xs) s = Some (FAILURE, s).
Proof.
  intros Hv Hhash Hocc s.
  assert (Hstep : ∀ f (m : store), m !! Str v = None → m !! Tuple xs = None →
            unify_body f (Str v) (List xs) m = Some (Subst, <[Str v := Tuple xs]> m)).
  { intros f m Hfree Hkey. unfold unify_body. simpl py_eq. simpl is_variable.
    rewrite Hv. unfold unify_var_with, as_sequence.
    change (hashable (Str v)) with true.
    change (hashable (Tuple xs)) with (forallb hashable xs).
    by rewrite Hfree, Hhash, Hkey, Hocc. }
  split.
  - rewrite unify_S. by apply Hstep.
  - rewrite unify_S. unfold unify_body at 1. simpl py_eq. simpl is_variable.
    rewrite Hv. unfold unify_var_with.
    change (hashable (Str v)) with true. simpl negb. cbv iota.
    unfold s at 1. rewrite lookup_insert_eq.
    apply unify_mismatch_failure; done.
Qed.

(** C10 (fails on the code): with [t = ["f", ["g","y"]]], in which ["x"]
    does not occur, [unify("x", t, {})] does not succeed: [tuple(t)] holds a
    list, so the test [tuple(x) in subst] raises [TypeError] before anything
    is stored. *)
Theorem unify_var_nested_list_raises (fuel : nat) :
  let t := List [Str "f"; List [Str "g"; Str "y"]] in
  is_variable (Str "x") = true ∧
  occurs_check (Str "x") t = false ∧
  unify (S fuel) (Str "x") t ∅ = Some (TypeError, ∅) ∧
  unify_and_check (S fuel) (Str "x") t = Some (inl TypeError).
Proof. split_and!; vm_compute; reflexivity. Qed.

(** * Further properties of the code *)

(** ** [occurs_check] *)

(** [occurs_check(var, x)] is [True] exactly when [var] equals [x] or equals
    an element, at any depth, of the lists of [x]; tuples inside [x] are
    compared as wholes and not entered. *)
Theorem occurs_check_spec (var x : term) :
  occurs_check var x = true ↔ occurs_in_lists var x.
Proof.
  induction x as [s|xs IH|xs IH] using term_ind'.
  - simpl. destruct (py_eq var (Str s)) eqn:E.
    + apply py_eq_true_iff in E as ->. split; [constructor|done].
    + split; [done|]. apply py_eq_false_iff in E. by inversion 1.
  - simpl. destruct (py_eq var (List xs)) eqn:E.
    { apply py_eq_true_iff in E as ->. split; [constructor|done]. }
    apply py_eq_false_iff in E.
    rewrite existsb_exists. split.
    + intros (xi & Hin & Hocc). apply list_elem_of_In in Hin.
      apply (occurs_at_element _ _ xi); [done|].
      rewrite Forall_forall in IH. by apply IH.
    + inversion 1 as [|xs' xi Hin Hocc]; subst; [done|].
      exists xi. split; [by apply list_elem_of_In|].
      rewrite Forall_forall in IH. by apply IH.
  - simpl. destruct (py_eq var (Tuple xs)) eqn:E.
    + apply py_eq_true_iff in E as ->. split; [constructor|done].
    + split; [done|]. apply py_eq_false_iff in E. by inversion 1.
Qed.

(** ** What the dict holds *)

Lemma store_ok_insert (s : store) (k v : term) :
  store_ok s → is_variable k = true → hashable v = true →
  store_ok (<[k := v]> s).
Proof.
  intros Hs Hk Hv k' v'. rewrite lookup_insert.
  case_decide; [by intros [= <-]; subst | apply Hs].
Qed.

Lemma hashable_element (xs : list term) (x : term) :
  forallb hashable xs = true → x ∈ xs → hashable x = true.
Proof.
  rewrite forallb_forall. intros H Hin. by apply H, list_elem_of_In.
Qed.

Section StoreOk.
Variable f : term → term → store → result.
Hypothesis f_ok : ∀ x y s o s', f x y s = Some (o, s') → store_ok s → store_ok s'.

Lemma unify_var_with_store_ok var x s o s' :
  is_variable var = true →
  unify_var_with f var x s = Some (o, s') → store_ok s → store_ok s'.
Proof using f_ok.
  intros Hvar. unfold unify_var_with.
  destruct (negb (hashable var)); [by intros [= _ <-]|].
  destruct (s !! var); [by apply f_ok|].
  destruct x as [a|xs|xs]; simpl as_sequence; cbv beta iota zeta.
  - destruct (occurs_check var (Str a)); intros [= _ <-]; [done|].
    intros Hs. by apply store_ok_insert.
  - destruct (negb (hashable (Tuple xs))) eqn:Hh; [by intros [= _ <-]|].
    apply negb_false_iff in Hh.
    destruct (s !! Tuple xs); [by apply f_ok|].
    destruct (occurs_check var (List xs)); intros [= _ <-]; [done|].
    intros Hs. by apply store_ok_insert.
  - destruct (negb (hashable (Tuple xs))) eqn:Hh; [by intros [= _ <-]|].
    apply negb_false_iff in Hh.
    destruct (s !! Tuple xs); [by apply f_ok|].
    destruct (occurs_check var (Tuple xs)); intros [= _ <-]; [done|].
    intros Hs. by apply store_ok_insert.
Qed.

Lemma unify_args_store_ok pairs s o s' :
  unify_args f pairs s = Some (o, s') → store_ok s → store_ok s'.
Proof using f_ok.
  revert s. induction pairs as [|[xi yi] pairs IH]; intros s; simpl.
  { by intros [= _ <-]. }
  destruct (f xi yi s) as [[o1 s1]|] eqn:E; [|done].
  intros H Hs. pose proof (f_ok _ _ _ _ _ E Hs) as Hs1.
  destruct o1; try (by injection H as _ <-).
  by apply (IH s1).
Qed.

Lemma unify_body_store_ok x y s o s' :
  unify_body f x y s = Some (o, s') → store_ok s → store_ok s'.
Proof using f_ok.
  unfold unify_body.
  destruct (py_eq x y); [by intros [= _ <-]|].
  destruct (is_variable x) eqn:Hx; [by apply unify_var_with_store_ok|].
  destruct (is_variable y) eqn:Hy; [by apply unify_var_with_store_ok|].
  destruct x as [|xs|], y as [|ys|]; try (by intros [= _ <-]).
  destruct (negb (length xs =? length ys)); [by intros [= _ <-]|].
  destruct xs as [|x0 xs], ys as [|y0 ys]; try (by intros [= _ <-]).
  destruct (negb (py_eq x0 y0)); [by intros [= _ <-]|].
  apply unify_args_store_ok.
Qed.
End StoreOk.

Lemma unify_store_ok (fuel : nat) (x y : term) (s s' : store) (o : outcome) :
  unify fuel x y s = Some (o, s') → store_ok s → store_ok s'.
Proof.
  revert x y s s' o. induction fuel as [|n IH]; intros x y s s' o; [done|].
  rewrite unify_S. apply unify_body_store_ok. intros ?????. by apply IH.
Qed.

(** Whatever [unify] is called on and however the call ends, a dict whose
    keys are all variables and whose values are all hashable is left with
    the same property: every key [unify] adds is a lowercase string, and no
    value it stores is a list or a tuple holding a list. *)
Theorem unify_keeps_store_ok (fuel : nat) (x y : term) (s s' : store) (o : outcome) :
  unify fuel x y s = Some (o, s') → store_ok s → store_ok s'.
Proof. apply unify_store_ok. Qed.

Lemma store_ok_empty : store_ok ∅.
Proof. intros k v. by rewrite lookup_empty. Qed.

Lemma unify_keeps_store_ok_witness :
  store_ok (<[Str "u" := Tuple [Str "f"; Str "v"]]> (<[Str "v" := Str "u"]> ∅)).
Proof.
  apply (unify_keeps_store_ok 3
           (List [Str "p"; Str "v"; List [Str "f"; Str "v"]])
           (List [Str "p"; Str "u"; Str "u"]) ∅ _ Subst).
  - vm_compute. reflexivity.
  - intros k v. rewrite lookup_empty. discriminate.
Defined.

Lemma reachable_store_ok (s : store) : reachable s → store_ok s.
Proof.
  induction 1 as [|fuel x y s o s' _ IH Hrun]; [apply store_ok_empty|].
  by eapply unify_store_ok.
Qed.

(** When [unify_and_check] reports success, every key of the dict it
    returns is a lowercase string, no key is a tuple, and every value is a
    string or a tuple of hashable elements, never a list. *)
Theorem unify_and_check_result_ok (fuel : nat) (expr1 expr2 : term) (s : store)
    (k v : term) :
  unify_and_check fuel expr1 expr2 = Some (inr (true, Some s)) →
  s !! k = Some v →
  (∃ name, k = Str name ∧ islower name = true) ∧
  ((∃ a, v = Str a) ∨ (∃ xs, v = Tuple xs ∧ forallb hashable xs = true)).
Proof.
  unfold unify_and_check.
  destruct (unify fuel expr1 expr2 ∅) as [[o s0]|] eqn:Hrun; [|done].
  destruct o; try done. intros [= <-] Hk.
  apply unify_store_ok in Hrun; [|apply store_ok_empty].
  destruct (Hrun k v Hk) as [Hvar Hhash]. split.
  - destruct k as [name| |]; try done. by exists name.
  - destruct v as [a|xs|xs]; [left; by exists a | done | right; by exists xs].
Qed.

Lemma unify_and_check_result_ok_witness :
  (∃ name, Str "u" = Str name ∧ islower name = true) ∧
  ((∃ a, Tuple [Str "f"; Str "v"] = Str a) ∨
   (∃ xs, Tuple [Str "f"; Str "v"] = Tuple xs ∧ forallb hashable xs = true)).
Proof.
  apply (unify_and_check_result_ok 3
           (List [Str "p"; Str "v"; List [Str "f"; Str "v"]])
           (List [Str "p"; Str "u"; Str "u"])
           (<[Str "u" := Tuple [Str "f"; Str "v"]]> (<[Str "v" := Str "u"]> ∅))
           (Str "u") (Tuple [Str "f"; Str "v"]));
    vm_compute; reflexivity.
Defined.

(** ** Terms without variables *)

Lemma ground_not_variable (t : term) : ground t = true → is_variable t = false.
Proof. destruct t; simpl; [by rewrite negb_true_iff | done | done]. Qed.

Lemma height_element (xs : list term) (x : term) (n : nat) :
  height (List xs) ≤ S n → x ∈ xs → height x ≤ n.
Proof.
  simpl. intros H Hin. apply le_S_n in H.
  induction Hin as [x xs|x y xs _ IH]; simpl in H; [lia|].
  apply IH. lia.
Qed.

Section GroundArgs.
Variable f : term → term → store → result.
Variable s : store.

(** The argument loop over pairs on each of which the call compares the two
    sides and leaves the dict alone. *)
Lemma unify_args_compare (xs ys : list term) :
  length xs = length ys →
  (∀ x y, (x, y) ∈ zip xs ys →
     f x y s = Some (if decide (x = y) then Subst else FAILURE, s)) →
  unify_args f (zip xs ys) s
  = Some (if decide (xs = ys) then Subst else FAILURE, s).
Proof.
  revert ys. induction xs as [|x xs IH]; intros [|y ys] Hlen Hf; try done.
  simpl. rewrite (Hf x y) by constructor.
  destruct (decide (x = y)) as [->|Hne].
  - rewrite IH; [|by injection Hlen|by intros; apply Hf; constructor].
    destruct (decide (xs = ys)) as [->|Hne].
    + by rewrite decide_True.
    + rewrite decide_False; [done|congruence].
  - rewrite decide_False; [done|congruence].
Qed.
End GroundArgs.

(** On two values in which [unify] meets no variable, [unify] is a test of
    equality that does not touch the dict: with fuel for the nesting depth
    of [x] it returns [subst], unchanged, when [x == y], and ["FAILURE"]
    otherwise. *)
Theorem unify_ground (fuel : nat) (x y : term) (s : store) :
  ground x = true →
  ground y = true →
  height x ≤ fuel →
  unify fuel x y s = Some (if decide (x = y) then Subst else FAILURE, s).
Proof.
  revert x y. induction fuel as [|n IH]; intros x y Hx Hy Hh.
  { destruct x; simpl in Hh; lia. }
  rewrite unify_S. unfold unify_body.
  destruct (py_eq x y) eqn:Heq.
  { apply py_eq_true_iff in Heq. by rewrite decide_True. }
  apply py_eq_false_iff in Heq. rewrite decide_False by done.
  rewrite (ground_not_variable x Hx), (ground_not_variable y Hy).
  destruct x as [|xs|], y as [|ys|]; try done.
  destruct (length xs =? length ys) eqn:Hlen; [|done].
  apply Nat.eqb_eq in Hlen. simpl negb.
  destruct xs as [|x0 xs], ys as [|y0 ys]; try done.
  destruct (py_eq x0 y0) eqn:Heq0; [|done].
  apply py_eq_true_iff in Heq0 as ->. simpl negb.
  rewrite (unify_args_compare (unify n) s xs ys).
  - rewrite decide_False; [done|congruence].
  - by injection Hlen.
  - intros x y Hin.
    pose proof (elem_of_zip_l _ _ _ _ Hin) as Hinx.
    pose proof (elem_of_zip_r _ _ _ _ Hin) as Hiny.
    simpl in Hx, Hy.
    apply andb_true_iff in Hx as [_ Hx]. apply andb_true_iff in Hy as [_ Hy].
    rewrite forallb_forall in Hx, Hy.
    apply IH.
    + by apply Hx, list_elem_of_In.
    + by apply Hy, list_elem_of_In.
    + apply (height_element (y0 :: xs)); [done|by constructor].
Qed.

Lemma unify_ground_witness :
  unify 3 (List [Str "P"; Str "A"; List [Str "F"; Str "B"]])
          (List [Str "P"; Str "A"; List [Str "F"; Str "C"]]) ∅
  = Some (if decide (List [Str "P"; Str "A"; List [Str "F"; Str "B"]]
                     = List [Str "P"; Str "A"; List [Str "F"; Str "C"]])
          then Subst else FAILURE, ∅).
Proof.
  apply (unify_ground 3); [reflexivity|reflexivity|simpl; lia].
Defined.

(** ** Terms without nested lists *)

Lemma hashable_flat (t : term) : hashable t = true → flat t = true.
Proof. by destruct t. Qed.

Section FlatSafe.
Variable f : term → term → store → result.
Hypothesis f_ok : ∀ x y s o s', f x y s = Some (o, s') → store_ok s → store_ok s'.
Hypothesis f_safe : ∀ x y s o s',
  flat x = true → flat y = true → store_ok s →
  f x y s = Some (o, s') → o ≠ TypeError.

Lemma unify_var_with_flat_safe var x s o s' :
  is_variable var = true → flat x = true → store_ok s →
  unify_var_with f var x s = Some (o, s') → o ≠ TypeError.
Proof using f_safe.
  intros Hvar Hx Hs. unfold unify_var_with.
  destruct var as [v| |]; try done. simpl hashable. simpl negb. cbv iota.
  destruct (s !! Str v) as [bound|] eqn:Hbound.
  { apply f_safe; [|done..]. by apply hashable_flat, (Hs (Str v)). }
  assert (Hbind : (if occurs_check (Str v) x then Some (FAILURE, s)
                   else Some (Subst, <[Str v:=stored_form x]> s)) = Some (o, s')
                  → o ≠ TypeError).
  { by destruct (occurs_check (Str v) x); intros [= <- _]. }
  destruct x as [a|xs|xs]; simpl as_sequence; cbv beta iota zeta; [done|..].
  - unfold flat in Hx. simpl in Hx. simpl hashable. rewrite Hx. simpl negb.
    destruct (s !! Tuple xs) as [bound|] eqn:Hkey; [|done].
    apply f_safe; [done| |done]. by apply hashable_flat, (Hs (Tuple xs)).
  - unfold flat in Hx. simpl in Hx. simpl hashable. rewrite Hx. simpl negb.
    destruct (s !! Tuple xs) as [bound|] eqn:Hkey; [|done].
    apply f_safe; [done| |done]. by apply hashable_flat, (Hs (Tuple xs)).
Qed.

Lemma unify_args_flat_safe pairs s o s' :
  Forall (λ p, flat p.1 = true ∧ flat p.2 = true) pairs → store_ok s →
  unify_args f pairs s = Some (o, s') → o ≠ TypeError.
Proof using f_ok f_safe.
  intros Hflat. revert s.
  induction Hflat as [|[xi yi] pairs [Hxi Hyi] _ IH]; intros s Hs; simpl.
  { by intros [= <- _]. }
  destruct (f xi yi s) as [[o1 s1]|] eqn:E; [|done].
  pose proof (f_safe _ _ _ _ _ Hxi Hyi Hs E) as Ho1.
  pose proof (f_ok _ _ _ _ _ E Hs) as Hs1.
  destruct o1; try (by intros [= <- _]).
  by apply IH.
Qed.

Lemma unify_body_flat_safe x y s o s' :
  flat x = true → flat y = true → store_ok s →
  unify_body f x y s = Some (o, s') → o ≠ TypeError.
Proof using f_ok f_safe.
  intros Hx Hy Hs. unfold unify_body.
  destruct (py_eq x y); [by intros [= <- _]|].
  destruct (is_variable x) eqn:Hvx; [by apply unify_var_with_flat_safe|].
  destruct (is_variable y) eqn:Hvy; [by apply unify_var_with_flat_safe|].
  destruct x as [|xs|], y as [|ys|]; try (by intros [= <- _]).
  destruct (negb (length xs =? length ys)); [by intros [= <- _]|].
  destruct xs as [|x0 xs], ys as [|y0 ys]; try (by intros [= <- _]).
  destruct (negb (py_eq x0 y0)); [by intros [= <- _]|].
  apply unify_args_flat_safe; [|done].
  apply Forall_forall. intros [xi yi] Hin. simpl.
  pose proof (elem_of_zip_l _ _ _ _ Hin) as Hinx.
  pose proof (elem_of_zip_r _ _ _ _ Hin) as Hiny.
  split; apply hashable_flat.
  - apply (hashable_element (x0 :: xs)); [done|by constructor].
  - apply (hashable_element (y0 :: ys)); [done|by constructor].
Qed.
End FlatSafe.

(** On terms without nested lists (each a string or a list of strings), and
    a dict whose keys are variables and whose values are hashable, such as
    any dict [unify] built from [{}], [unify] never raises [TypeError]. *)
Theorem unify_flat_no_TypeError (fuel : nat) (x y : term) (s s' : store)
    (o : outcome) :
  flat x = true →
  flat y = true →
  store_ok s →
  unify fuel x y s = Some (o, s') →
  o ≠ TypeError.
Proof.
  revert x y s s' o. induction fuel as [|n IH]; intros x y s s' o; [done|].
  intros Hx Hy Hs. rewrite unify_S. apply unify_body_flat_safe; try done.
  - intros ?????. apply unify_store_ok.
  - intros ????????. by eapply IH.
Qed.

Lemma unify_flat_no_TypeError_witness : Subst ≠ TypeError.
Proof.
  apply (unify_flat_no_TypeError 1 (Str "x") (List [Str "f"; Str "y"]) ∅
           (<[Str "x" := Tuple [Str "f"; Str "y"]]> ∅) Subst).
  - reflexivity.
  - reflexivity.
  - intros k v. rewrite lookup_empty. discriminate.
  - vm_compute. reflexivity.
Defined.

(** ** Stored tuples and the occurs-check *)

(** A variable [b], unbound, unified with a variable [a] that is bound to a
    tuple, is bound to that tuple without any check of its elements:
    [unify] follows [a] to the tuple, and [occurs_check] does not enter
    tuples.  When [b] is one of the elements, the dict left binds [b] to a
    compound containing [b]. *)
Theorem unify_binds_to_stored_tuple (fuel : nat) (a b : string)
    (xs : list term) (s : store) :
  islower a = true →
  islower b = true →
  a ≠ b →
  s !! Str a = Some (Tuple xs) →
  s !! Str b = None →
  forallb hashable xs = true →
  s !! Tuple xs = None →
  unify (S (S fuel)) (Str a) (Str b) s = Some (Subst, <[Str b := Tuple xs]> s) ∧
  (Str b ∈ xs → ¬ acyclic (<[Str b := Tuple xs]> s)).
Proof.
  intros Ha Hb Hne Hbound Hfree Hhash Hkey. split.
  - rewrite unify_S. unfold unify_body at 1.
    assert (py_eq (Str a) (Str b) = false) as -> by (apply py_eq_false_iff; congruence).
    simpl is_variable. rewrite Ha. unfold unify_var_with at 1.
    simpl hashable. simpl negb. cbv iota. rewrite Hbound.
    rewrite unify_S. unfold unify_body, unify_var_with.
    simpl. rewrite Hb, Hfree, Hhash, Hkey. done.
  - intros Hin Hacyc.
    apply (Hacyc (Str b) (Tuple xs)); [apply lookup_insert_eq|].
    apply (occurs_in_tuple _ _ xs (Str b)); [done|constructor].
Qed.

Lemma unify_binds_to_stored_tuple_witness :
  let s : store := <[Str "x" := Tuple [Str "f"; Str "y"]]> ∅ in
  unify 2 (Str "x") (Str "y") s
    = Some (Subst, <[Str "y" := Tuple [Str "f"; Str "y"]]> s) ∧
  (Str "y" ∈ [Str "f"; Str "y"] →
   ¬ acyclic (<[Str "y" := Tuple [Str "f"; Str "y"]]> s)).
Proof.
  apply (unify_binds_to_stored_tuple 0 "x" "y" [Str "f"; Str "y"]);
    try (vm_compute; reflexivity).
  discriminate.
Defined.

(** ** Showing a binding *)

Lemma shown_stored_form (x : term) :
  (∀ xs, x ≠ Tuple xs) → shown_value (stored_form x) = x.
Proof. destruct x as [a|xs|xs]; intros Hx; [done|done|by destruct (Hx xs)]. Qed.

(** When [unify] binds an unbound variable to a string or a list, what
    [display_result] shows for that variable is the string or list itself:
    the tuple made for storing is turned back into the list. *)
Theorem shown_binding_is_term (fuel : nat) (v : string) (x : term) (s : store) :
  islower v = true →
  (∀ xs, x ≠ Tuple xs) →
  flat x = true →
  store_ok s →
  s !! Str v = None →
  occurs_check (Str v) x = false →
  ∃ s', unify (S fuel) (Str v) x s = Some (Subst, s') ∧
        shown_substitutions s' !! Str v = Some x ∧
        ∀ k, k ≠ Str v → shown_substitutions s' !! k = shown_substitutions s !! k.
Proof.
  intros Hv Hx Hflat Hs Hfree Hocc.
  exists (<[Str v := stored_form x]> s).
  assert (Hne : py_eq (Str v) x = false).
  { destruct (py_eq (Str v) x) eqn:E; [|done].
    apply py_eq_true_iff in E as <-. simpl in Hocc.
    by rewrite String.eqb_refl in Hocc. }
  assert (Hrun : unify (S fuel) (Str v) x s
                 = Some (Subst, <[Str v := stored_form x]> s)).
  { rewrite unify_S. unfold unify_body. rewrite Hne. simpl is_variable.
    rewrite Hv. unfold unify_var_with. simpl hashable at 1. simpl negb. cbv iota.
    rewrite Hfree, Hocc.
    destruct x as [a|xs|xs]; [done| |by destruct (Hx xs)].
    simpl as_sequence. cbv beta iota.
    unfold flat in Hflat. simpl in Hflat. simpl hashable. rewrite Hflat.
    simpl negb. cbv iota.
    destruct (s !! Tuple xs) eqn:Hkey; [|done].
    by destruct (Hs _ _ Hkey). }
  split_and!; [done|..].
  - unfold shown_substitutions. rewrite lookup_fmap, lookup_insert_eq. simpl.
    by rewrite shown_stored_form.
  - intros k Hk. unfold shown_substitutions.
    by rewrite !lookup_fmap, lookup_insert_ne.
Qed.

Lemma shown_binding_is_term_witness :
  ∃ s', unify 1 (Str "x") (List [Str "f"; Str "y"]) ∅ = Some (Subst, s') ∧
        shown_substitutions s' !! Str "x" = Some (List [Str "f"; Str "y"]) ∧
        ∀ k, k ≠ Str "x" → shown_substitutions s' !! k = shown_substitutions ∅ !! k.
Proof.
  apply (shown_binding_is_term 0 "x" (List [Str "f"; Str "y"]) ∅);
    try (vm_compute; reflexivity).
  - discriminate.
  - intros k v. rewrite lookup_empty. discriminate.
Defined.

(** ** [parse_input] *)

Lemma word_prefix_drop (cs : list ascii) :
  (word_prefix cs ++ drop (length (word_prefix cs)) cs)%list = cs.
Proof.
  induction cs as [|c cs IH]; simpl; [done|].
  destruct (is_word_char c); simpl; [by rewrite IH | done].
Qed.

Lemma word_prefix_word (cs : list ascii) :
  forallb is_word_char (word_prefix cs) = true.
Proof.
  induction cs as [|c cs IH]; simpl; [done|].
  destruct (is_word_char c) eqn:E; simpl; [by rewrite E | done].
Qed.

Lemma until_newline_length (cs : list ascii) :
  length (until_newline cs) ≤ length cs.
Proof.
  induction cs as [|c cs IH]; simpl; [done|].
  destruct (nat_of_ascii c =? 10); simpl; lia.
Qed.

Lemma split_comma_nonempty (cs : list ascii) : split_comma cs ≠ [].
Proof.
  destruct cs as [|c cs]; simpl; [done|].
  destruct (nat_of_ascii c =? 44); [done|].
  by destruct (split_comma cs).
Qed.

Lemma split_comma_length (cs piece : list ascii) :
  piece ∈ split_comma cs → length piece ≤ length cs.
Proof.
  revert piece. induction cs as [|c cs IH]; intros piece; simpl.
  { intros ->%list_elem_of_singleton. done. }
  destruct (nat_of_ascii c =? 44).
  { intros [->|Hin]%elem_of_cons; simpl; [lia|]. apply IH in Hin. lia. }
  destruct (split_comma cs) as [|p ps] eqn:E.
  { intros ->%list_elem_of_singleton. simpl. lia. }
  intros [->|Hin]%elem_of_cons; simpl.
  - assert (length p ≤ length cs) by (apply IH; constructor). lia.
  - assert (length piece ≤ length cs) by (apply IH; by constructor). lia.
Qed.

Lemma lstrip_length (cs : list ascii) : length (lstrip cs) ≤ length cs.
Proof.
  induction cs as [|c cs IH]; simpl; [done|].
  destruct (py_isspace c); simpl; lia.
Qed.

Lemma strip_length (cs : list ascii) : length (strip cs) ≤ length cs.
Proof.
  unfold strip. rewrite length_reverse.
  etransitivity; [apply lstrip_length|]. rewrite length_reverse.
  apply lstrip_length.
Qed.

Lemma parse_term_S (fuel : nat) (text : list ascii) :
  parse_term (S fuel) text =
  if has_paren text then
    match word_prefix text with
    | [] => Some (Str (string_of_list_ascii text))
    | predicate =>
      arguments ← mapM (λ arg, parse_term fuel (strip arg))
        (split_comma (until_newline (drop (length predicate) text)));
      Some (List (Str (string_of_list_ascii predicate) :: arguments))
    end
  else Some (Str (string_of_list_ascii text)).
Proof. reflexivity. Qed.

Lemma parse_term_total (fuel : nat) (text : list ascii) :
  length text < fuel → is_Some (parse_term fuel text).
Proof.
  revert text. induction fuel as [|n IH]; intros text Hlen; [lia|].
  rewrite parse_term_S. destruct (has_paren text); [|done].
  pose proof (word_prefix_drop text) as Hsplit.
  destruct (word_prefix text) as [|c p] eqn:Hp; [done|].
  cbv beta iota zeta.
  apply (f_equal length) in Hsplit. rewrite length_app in Hsplit.
  assert (is_Some (mapM (λ arg, parse_term n (strip arg))
            (split_comma (until_newline (drop (length (c :: p)) text))))) as [args ->].
  { apply mapM_is_Some, Forall_forall. intros arg Hin. simpl. apply IH.
    apply split_comma_length in Hin.
    pose proof (strip_length arg).
    pose proof (until_newline_length (drop (length (c :: p)) text)).
    simpl in *. lia. }
  done.
Qed.

(** [parse_input] returns a term for every input string: the recursion of
    [parse_term] always ends, each call being on a shorter string. *)
Theorem parse_input_total (input_str : string) :
  ∃ t, parse_input input_str = Some t.
Proof.
  unfold parse_input. apply parse_term_total. lia.
Qed.

Lemma parse_term_tree (fuel : nat) (text : list ascii) (t : term) :
  parse_term fuel text = Some t → parse_tree t.
Proof.
  revert text t. induction fuel as [|n IH]; intros text t; [done|].
  rewrite parse_term_S. destruct (has_paren text); [|intros [= <-]; constructor].
  pose proof (word_prefix_word text) as Hword.
  destruct (word_prefix text) as [|c p] eqn:Hp; [intros [= <-]; constructor|].
  cbv beta iota zeta.
  destruct (mapM _ _) as [args|] eqn:Hargs; [|done].
  intros [= <-]. apply mapM_Some in Hargs.
  apply (parse_tree_node (c :: p)); [done|done|..].
  - intros ->. apply Forall2_nil_inv_r in Hargs.
    by apply split_comma_nonempty in Hargs.
  - clear -Hargs IH. induction Hargs as [|arg t' args ts Ht _ IHargs]; constructor.
    + by eapply IH.
    + done.
Qed.

(** Every term [parse_input] returns is a string, or a list that starts
    with a non-empty string of word characters (the functor) and has at
    least one more element, its arguments being of the same two shapes: no
    list it builds is empty or of length one, and it builds no tuple. *)
Theorem parse_input_tree (input_str : string) (t : term) :
  parse_input input_str = Some t → parse_tree t.
Proof. apply parse_term_tree. Qed.

Lemma parse_input_tree_witness :
  parse_tree (List [Str "p"; Str "(x"; List [Str "f"; Str "(y))"]]).
Proof.
  apply (parse_input_tree "p(x, f(y))"). vm_compute. reflexivity.
Defined.

(** An input that, once its spaces are removed, has no opening parenthesis,
    or does not begin with a word character, is returned whole as one
    string with the spaces removed; this includes the empty input. *)
Theorem parse_input_leaf (input_str : string) :
  let cs := remove_spaces (list_ascii_of_string input_str) in
  has_paren cs = false ∨ word_prefix cs = [] →
  parse_input input_str = Some (Str (string_of_list_ascii cs)).
Proof.
  intros cs H. unfold parse_input. fold cs. rewrite parse_term_S.
  destruct H as [->| ->]; [done|]. by destruct (has_paren cs).
Qed.

Lemma parse_input_leaf_witness :
  parse_input "(x, y)" = Some (Str "(x,y)").
Proof.
  apply (parse_input_leaf "(x, y)"). right. reflexivity.
Defined.

(** *** Reading a parsed term back *)

Lemma join_split_comma (cs : list ascii) : join_comma (split_comma cs) = cs.
Proof.
  induction cs as [|c cs IH]; simpl; [done|].
  pose proof (split_comma_nonempty cs) as Hne.
  destruct (nat_of_ascii c =? 44) eqn:Hc.
  - apply Nat.eqb_eq in Hc.
    assert (c = ","%char) as ->.
    { rewrite <- (ascii_nat_embedding c), Hc. reflexivity. }
    destruct (split_comma cs) as [|p ps]; [done|]. simpl. by rewrite <- IH.
  - destruct (split_comma cs) as [|p ps]; [done|].
    rewrite <- IH. by destruct ps.
Qed.

Lemma until_newline_no_whitespace (cs : list ascii) :
  no_whitespace cs → until_newline cs = cs.
Proof.
  induction 1 as [|c cs Hc _ IH]; simpl; [done|].
  destruct (nat_of_ascii c =? 10) eqn:E; [|by rewrite IH].
  apply Nat.eqb_eq in E. unfold py_isspace in Hc. rewrite E in Hc. done.
Qed.

Lemma split_comma_no_whitespace (cs : list ascii) :
  no_whitespace cs → Forall no_whitespace (split_comma cs).
Proof.
  induction 1 as [|c cs Hc Hcs IH]; simpl.
  { repeat constructor. }
  destruct (nat_of_ascii c =? 44).
  { constructor; [constructor | done]. }
  destruct (split_comma cs) as [|p ps]; [repeat constructor; done|].
  inversion IH; subst. constructor; [by constructor | done].
Qed.

Lemma lstrip_no_whitespace (cs : list ascii) :
  no_whitespace cs → lstrip cs = cs.
Proof. destruct 1 as [|c cs Hc _]; simpl; [done | by rewrite Hc]. Qed.

Lemma strip_no_whitespace (cs : list ascii) :
  no_whitespace cs → strip cs = cs.
Proof.
  intros H. unfold strip. rewrite (lstrip_no_whitespace cs H).
  rewrite lstrip_no_whitespace by (by apply Forall_reverse).
  apply reverse_involutive.
Qed.

Lemma parse_term_unparse (fuel : nat) (text : list ascii) (t : term) :
  no_whitespace text → parse_term fuel text = Some t → unparse t = text.
Proof.
  revert text t. induction fuel as [|n IH]; intros text t Hclean; [done|].
  rewrite parse_term_S.
  destruct (has_paren text);
    [|intros [= <-]; apply list_ascii_of_string_of_list_ascii].
  pose proof (word_prefix_drop text) as Hsplit.
  destruct (word_prefix text) as [|c p] eqn:Hp;
    [intros [= <-]; apply list_ascii_of_string_of_list_ascii|].
  cbv beta iota zeta.
  destruct (mapM _ _) as [args|] eqn:Hargs; [|done].
  intros [= <-]. apply mapM_Some in Hargs.
  assert (Hrest : no_whitespace (drop (length (c :: p)) text))
    by (by apply Forall_drop).
  rewrite (until_newline_no_whitespace _ Hrest) in Hargs.
  assert (Hmap : map unparse args = split_comma (drop (length (c :: p)) text)).
  { pose proof (split_comma_no_whitespace _ Hrest) as Hpieces.
    clear -Hargs Hpieces IH.
    induction Hargs as [|arg t' pieces ts Ht _ IHargs]; [done|].
    inversion Hpieces as [|? ? Harg Hpieces']; subst. simpl.
    rewrite (strip_no_whitespace arg Harg) in Ht.
    by rewrite (IH arg t' Harg Ht), IHargs. }
  transitivity (list_ascii_of_string (string_of_list_ascii (c :: p))
                ++ join_comma (map unparse args))%list; [reflexivity|].
  by rewrite (list_ascii_of_string_of_list_ascii (c :: p)), Hmap, join_split_comma.
Qed.

(** On an input whose only whitespace is spaces, [parse_input] loses nothing
    but the spaces: each list it returns, read as its first element followed
    by the others joined by commas, spells the input without its spaces.
    Parentheses are therefore never taken out: they stay inside the
    strings of the arguments. *)
Theorem parse_input_unparse (input_str : string) :
  Forall (λ c, py_isspace c = true → nat_of_ascii c = 32)
         (list_ascii_of_string input_str) →
  ∃ t, parse_input input_str = Some t ∧
       unparse t = remove_spaces (list_ascii_of_string input_str).
Proof.
  intros Hws.
  destruct (parse_term_total
              (S (length (remove_spaces (list_ascii_of_string input_str))))
              (remove_spaces (list_ascii_of_string input_str))) as [t Ht]; [lia|].
  exists t. split; [done|].
  apply (parse_term_unparse _ _ _) in Ht; [done|].
  unfold remove_spaces, no_whitespace.
  apply Forall_forall. intros c [Hc Hin]%list_elem_of_filter.
  rewrite Forall_forall in Hws.
  destruct (py_isspace c) eqn:E; [|done]. by destruct Hc, (Hws c Hin).
Qed.

Lemma parse_input_unparse_witness :
  ∃ t, parse_input "p(x, f(y))" = Some t ∧
       unparse t = remove_spaces (list_ascii_of_string "p(x, f(y))").
Proof.
  apply (parse_input_unparse "p(x, f(y))").
  vm_compute. repeat constructor; discriminate.
Defined.

(** ** Two more things [unify] never does *)

Lemma unify_no_IndexError_witness :
  unify 2 (List [Str "p"; Str "a"]) (List [Str "p"; Str "b"]) ∅
  ≠ Some (IndexError, ∅).
Proof. apply (unify_no_IndexError 2). Defined.

(** Two unequal values neither of which is a variable make [unify] return
    ["FAILURE"], the dict unchanged, whenever they are not both lists, or
    are lists of different lengths or with different first elements.  The
    first elements are compared with [==]: two different lowercase functors
    are a mismatch, not variables to bind. *)
Theorem unify_rejects_mismatch (fuel : nat) (x y : term) (s : store) :
  is_variable x = false →
  is_variable y = false →
  x ≠ y →
  mismatch x y →
  unify (S fuel) x y s = Some (FAILURE, s).
Proof. apply unify_mismatch_failure. Qed.

Lemma unify_rejects_mismatch_witness :
  unify 1 (List [Str "p"; Str "a"]) (List [Str "q"; Str "a"]) ∅
  = Some (FAILURE, ∅).
Proof.
  apply (unify_rejects_mismatch 0); [reflexivity|reflexivity|discriminate|].
  right. discriminate.
Defined.

Lemma stored_form_not_variable (var x : term) :
  is_variable var = true → py_eq var x = false → stored_form x ≠ var.
Proof.
  intros Hvar Hne <-. destruct x as [a|xs|xs]; try done.
  simpl in Hne. by rewrite String.eqb_refl in Hne.
Qed.

Section NoSelfBinding.
Variable f : term → term → store → result.
Hypothesis f_ok : ∀ x y s o s',
  f x y s = Some (o, s') → no_self_binding s → no_self_binding s'.

Lemma unify_var_with_no_self_binding var x s o s' :
  is_variable var = true → py_eq var x = false →
  unify_var_with f var x s = Some (o, s') →
  no_self_binding s → no_self_binding s'.
Proof using f_ok.
  intros Hvar Hne. unfold unify_var_with.
  destruct (negb (hashable var)); [by intros [= _ <-]|].
  destruct (s !! var); [by apply f_ok|].
  assert (Hbind : (if occurs_check var x then Some (FAILURE, s)
                   else Some (Subst, <[var:=stored_form x]> s)) = Some (o, s')
                  → no_self_binding s → no_self_binding s').
  { destruct (occurs_check var x); intros [= _ <-]; [done|].
    intros Hs k. rewrite lookup_insert. case_decide; [|apply Hs].
    subst k. intros [= Heq]. by apply (stored_form_not_variable var x). }
  destruct (as_sequence x) as [xs|]; [|done].
  destruct (negb (hashable (Tuple xs))); [by intros [= _ <-]|].
  destruct (s !! Tuple xs); [by apply f_ok | done].
Qed.

Lemma unify_args_no_self_binding pairs s o s' :
  unify_args f pairs s = Some (o, s') →
  no_self_binding s → no_self_binding s'.
Proof using f_ok.
  revert s. induction pairs as [|[xi yi] pairs IH]; intros s; simpl.
  { by intros [= _ <-]. }
  destruct (f xi yi s) as [[o1 s1]|] eqn:E; [|done].
  intros H Hs. pose proof (f_ok _ _ _ _ _ E Hs) as Hs1.
  destruct o1; try (by injection H as _ <-).
  by apply (IH s1).
Qed.

Lemma unify_body_no_self_binding x y s o s' :
  unify_body f x y s = Some (o, s') →
  no_self_binding s → no_self_binding s'.
Proof using f_ok.
  unfold unify_body.
  destruct (py_eq x y) eqn:Heq; [by intros [= _ <-]|].
  destruct (is_variable x) eqn:Hx; [by apply unify_var_with_no_self_binding|].
  destruct (is_variable y) eqn:Hy.
  { apply unify_var_with_no_self_binding; [done|].
    apply py_eq_false_iff. apply py_eq_false_iff in Heq. congruence. }
  destruct x as [|xs|], y as [|ys|]; try (by intros [= _ <-]).
  destruct (negb (length xs =? length ys)); [by intros [= _ <-]|].
  destruct xs as [|x0 xs], ys as [|y0 ys]; try (by intros [= _ <-]).
  destruct (negb (py_eq x0 y0)); [by intros [= _ <-]|].
  apply unify_args_no_self_binding.
Qed.
End NoSelfBinding.

(** [unify] never binds a key to itself: if no key of the dict is its own
    value before a call, none is after it, however the call ends.  (Longer
    cycles, and a variable bound to a tuple that contains it, are not
    excluded.) *)
Theorem unify_no_self_binding (fuel : nat) (x y : term) (s s' : store)
    (o : outcome) :
  unify fuel x y s = Some (o, s') →
  no_self_binding s → no_self_binding s'.
Proof.
  revert x y s s' o. induction fuel as [|n IH]; intros x y s s' o; [done|].
  rewrite unify_S. apply unify_body_no_self_binding. intros ?????. by apply IH.
Qed.

Lemma unify_no_self_binding_witness : no_self_binding cyclic_store.
Proof.
  apply (unify_no_self_binding 2 (List [Str "p"; Str "x"; Str "y"])
           (List [Str "p"; Str "y"; Str "x"]) ∅ cyclic_store Subst).
  - vm_compute. reflexivity.
  - intros k. rewrite lookup_empty. discriminate.
Defined.
